(** * MPPT_P-O: the perturb-and-observe controller of [mppt_po.py]

    A shallow embedding of the class [MPPT_PO] (its constructor and its
    [update] method) and the properties of its decision rule, its clamp and
    its history log.

    Numbers.  The controller computes on Python numbers with [*], [+], [-],
    [==] and [>] only.  They are modelled by the exact rationals [Q]: every
    decimal literal of the program is a rational, the tests of the program
    are the boolean tests [Qeq_bool] and [Qle_bool], and "the same number"
    is [==] of [Q].  Rounding, infinities and NaN are outside this model.
    Where a property depends on the rounding of [+] and [-], the section
    on rounded arithmetic takes the three operations of [update] as
    parameters and runs the controller on binary64 numbers.

    Exceptions.  A method that may raise returns an [option]; [None] is a
    raised exception.  The only statement of [update] that can raise is the
    subscript [self.history[k]] (a [KeyError] on a missing key).

    The history.  [self.history] is a dict from strings to lists, here a
    [gmap string (list value)], whose lists hold numbers or strings. *)

From Stdlib Require Import QArith Qminmax Qabs Qround Lqa SpecFloat.
From stdpp Require Import base option list strings gmap fin_maps.

Local Open Scope Q_scope.

(** ** Values and tests *)

(** What a history list holds: a measurement or an action name. *)
Inductive value : Type :=
| Num (q : Q)
| Str (s : string).

(** The test [x > 0] of the program. *)
Definition Qpos_b (x : Q) : bool := negb (Qle_bool x 0).

(** [np.clip(a, a_min, a_max)] on scalars: [minimum(maximum(a, a_min), a_max)]. *)
Definition np_clip (a a_min a_max : Q) : Q := Qmin (Qmax a a_min) a_max.

(** ** The controller object *)

Record MPPT_PO : Type := mkMPPT_PO {
  step_size : Q;
  max_voltage : Q;
  min_voltage : Q;
  sample_time : Q;
  v_prev : Q;
  p_prev : Q;
  v_ref : Q;
  history : gmap string (list value)
}.

(** [MPPT_PO.__init__]: stores the four parameters as they come, zeroes the
    previous sample, seeds the reference with [min_voltage] and creates the
    four empty history lists.  No statement of it raises. *)
Definition __init__ (step_size max_voltage min_voltage sample_time : Q)
  : option MPPT_PO :=
  Some {| step_size := step_size;
          max_voltage := max_voltage;
          min_voltage := min_voltage;
          sample_time := sample_time;
          v_prev := 0;
          p_prev := 0;
          v_ref := min_voltage;
          history := <["v" := []]> (<["i" := []]> (<["p" := []]>
                       (<["action" := []]> ∅))) |}.

(** [h[k].append(x)]: the subscript raises when [k] is not a key of [h]. *)
Definition append (k : string) (x : value) (h : gmap string (list value))
  : option (gmap string (list value)) :=
  l ← h !! k; Some (<[k := l ++ [x]]> h).

(** The decision table of [update] (the nested [if] on [delta_p] and
    [delta_v]): the reference before clamping and the name of the action.
    Sum and difference are exact here; [perturb_r] below is the same table
    on machine operations. *)
Definition perturb (self : MPPT_PO) (delta_v delta_p : Q) : Q * string :=
  if Qpos_b delta_p then
    if Qpos_b delta_v then (v_ref self + step_size self, "increase"%string)
    else (v_ref self - step_size self, "decrease"%string)
  else
    if Qpos_b delta_v then (v_ref self - step_size self, "decrease"%string)
    else (v_ref self + step_size self, "increase"%string).

(** [MPPT_PO.update]: the new object and the returned reference. *)
Definition update (self : MPPT_PO) (v_measured i_measured : Q)
  : option (MPPT_PO * Q) :=
  let p_measured := v_measured * i_measured in
  h ← append "v" (Num v_measured) (history self);
  h ← append "i" (Num i_measured) h;
  h ← append "p" (Num p_measured) h;
  if Qeq_bool (p_prev self) 0 then
    h ← append "action" (Str "init") h;
    Some ({| step_size := step_size self;
             max_voltage := max_voltage self;
             min_voltage := min_voltage self;
             sample_time := sample_time self;
             v_prev := v_measured;
             p_prev := p_measured;
             v_ref := v_ref self;
             history := h |}, v_ref self)
  else
    let delta_v := v_measured - v_prev self in
    let delta_p := p_measured - p_prev self in
    let '(v_new, action) := perturb self delta_v delta_p in
    let v_clipped := np_clip v_new (min_voltage self) (max_voltage self) in
    h ← append "action" (Str action) h;
    Some ({| step_size := step_size self;
             max_voltage := max_voltage self;
             min_voltage := min_voltage self;
             sample_time := sample_time self;
             v_prev := v_measured;
             p_prev := p_measured;
             v_ref := v_clipped;
             history := h |}, v_clipped).

(** A sequence of calls [update(v, i)] on one object, in order: the final
    object and the list of the returned references. *)
Fixpoint run (self : MPPT_PO) (samples : list (Q * Q))
  : option (MPPT_PO * list Q) :=
  match samples with
  | [] => Some (self, [])
  | (v, i) :: rest =>
      '(self', r) ← update self v i;
      '(final, rs) ← run self' rest;
      Some (final, r :: rs)
  end.

(** The history list under key [k], empty when the key is missing. *)
Definition log (self : MPPT_PO) (k : string) : list value :=
  default [] (history self !! k).

(** The four history lists of an object. *)
Definition logs (self : MPPT_PO) (lv li lp la : list value) : Prop :=
  history self !! "v" = Some lv ∧ history self !! "i" = Some li ∧
  history self !! "p" = Some lp ∧ history self !! "action" = Some la.

(** The objects a program can hold: built by [__init__], then changed by
    calls of [update] only. *)
Inductive reachable : MPPT_PO → Prop :=
| reach_init step max min st self :
    __init__ step max min st = Some self → reachable self
| reach_update self v i self' r :
    reachable self → update self v i = Some (self', r) → reachable self'.

(** The configuration of [self'] is the one of [self]. *)
Definition same_config (self self' : MPPT_PO) : Prop :=
  step_size self' = step_size self ∧ max_voltage self' = max_voltage self ∧
  min_voltage self' = min_voltage self ∧ sample_time self' = sample_time self.

(** An object in its tracking phase: the one built by
    [MPPT_PO(step_size=0.5, max_voltage=45, min_voltage=10, sample_time=0.2)]
    after the call [update(10, 1)]. *)
Definition tracking_example : MPPT_PO :=
  {| step_size := 1 # 2; max_voltage := 45; min_voltage := 10;
     sample_time := 1 # 5; v_prev := 10; p_prev := 10; v_ref := 10;
     history := <["v" := [Num 10]]> (<["i" := [Num 1]]> (<["p" := [Num 10]]>
                  (<["action" := [Str "init"]]> ∅))) |}.

(** An object saturated at its upper bound: the one built by
    [MPPT_PO(step_size=1, max_voltage=1, min_voltage=0)] after the calls
    [update(1, 1)], [update(2, 1)] and [update(1, 1)]. *)
Definition pinned_example : MPPT_PO :=
  {| step_size := 1; max_voltage := 1; min_voltage := 0;
     sample_time := 1 # 10; v_prev := 1; p_prev := 1; v_ref := 1;
     history := <["v" := [Num 1; Num 2; Num 1]]>
                  (<["i" := [Num 1; Num 1; Num 1]]>
                  (<["p" := [Num 1; Num 2; Num 1]]>
                  (<["action" := [Str "init"; Str "increase"; Str "increase"]]> ∅))) |}.


(** ** The action plot and the simulation driver *)

(** The number that [plot_history] plots for one logged action:
    [1 if a == 'increase' else -1 if a == 'decrease' else 0]. *)
Definition action_code (a : value) : Z :=
  match a with
  | Str s => if bool_decide (s = "increase"%string) then 1%Z
             else if bool_decide (s = "decrease"%string) then (-1)%Z
             else 0%Z
  | Num _ => 0%Z
  end.

(** The list [action_num] of [plot_history], a comprehension over
    [self.history['action']]. *)
Definition action_num (actions : list value) : list Z :=
  action_code <$> actions.

(** [int(x)] on a number: truncation towards zero. *)
Definition py_int (x : Q) : Z := Z.quot (Qnum x) (Z.pos (Qden x)).

Section Simulation.

(** What the driver takes from outside the controller is a parameter:
    the current [_simulate_pv(v)] of the virtual panel, an exponential of
    a square that has no rational model and raises when the square
    overflows; the draws [np.random.normal(0, 0.05)], the one of iteration
    [step] being [noise step]; the float quotient [x / y] for a non-zero
    [y], of which [int] raises when it is not a finite number; and
    [time.sleep], which raises on a negative argument and on one too long
    for the clock.  [None] is a raise. *)
Variable _simulate_pv : Q → option Q.
Variable noise : nat → Q.
Variable true_div : Q → Q → option Q.
Variable sleep : Q → option unit.

(** The [for] loop of [simulate_real_time], with [steps] iterations left
    and [step] the current value of the loop variable: the measured
    voltage is the operating voltage, which the loop then sets to the
    returned reference, and every iteration ends with
    [sleep(mppt.sample_time)].  Printing does not touch [mppt]. *)
Fixpoint simulation_loop (steps step : nat) (mppt : MPPT_PO) (v_operating : Q)
  : option (MPPT_PO * Q) :=
  match steps with
  | O => Some (mppt, v_operating)
  | S steps' =>
      pv ← _simulate_pv v_operating;
      let i := pv + noise step in
      '(mppt', v_ref) ← update mppt v_operating i;
      _ ← sleep (sample_time mppt');
      simulation_loop steps' (S step) mppt' v_ref
  end.

(** [simulate_real_time(mppt, duration)] up to the call of the plot: the
    controller and the operating voltage after the loop.  The quotient
    [duration/mppt.sample_time] raises [ZeroDivisionError] when the sample
    time is zero; [range] of a negative number is empty. *)
Definition simulate_real_time (mppt : MPPT_PO) (duration : Q)
  : option (MPPT_PO * Q) :=
  let v_operating := min_voltage mppt in
  q ← (if Qeq_bool (sample_time mppt) 0 then None
       else true_div duration (sample_time mppt));
  simulation_loop (Z.to_nat (py_int q)) 0 mppt v_operating.

End Simulation.

(** ** Rounded arithmetic *)

Section Rounded.

(** The same controller with the three arithmetic operations of [update]
    as parameters, for the machine operations that round: Python floats
    are rationals, their [+], [-] and [*] return a rational near the exact
    result, and their comparisons and [np.clip] are exact.  Infinities and
    NaN stay outside the model. *)
Variable add sub mul : Q → Q → Q.

(** The decision table, with the machine sum and difference. *)
Definition perturb_r (self : MPPT_PO) (delta_v delta_p : Q) : Q * string :=
  if Qpos_b delta_p then
    if Qpos_b delta_v then (add (v_ref self) (step_size self), "increase"%string)
    else (sub (v_ref self) (step_size self), "decrease"%string)
  else
    if Qpos_b delta_v then (sub (v_ref self) (step_size self), "decrease"%string)
    else (add (v_ref self) (step_size self), "increase"%string).

(** [MPPT_PO.update] on the machine operations. *)
Definition update_r (self : MPPT_PO) (v_measured i_measured : Q)
  : option (MPPT_PO * Q) :=
  let p_measured := mul v_measured i_measured in
  h ← append "v" (Num v_measured) (history self);
  h ← append "i" (Num i_measured) h;
  h ← append "p" (Num p_measured) h;
  if Qeq_bool (p_prev self) 0 then
    h ← append "action" (Str "init") h;
    Some ({| step_size := step_size self;
             max_voltage := max_voltage self;
             min_voltage := min_voltage self;
             sample_time := sample_time self;
             v_prev := v_measured;
             p_prev := p_measured;
             v_ref := v_ref self;
             history := h |}, v_ref self)
  else
    let delta_v := sub v_measured (v_prev self) in
    let delta_p := sub p_measured (p_prev self) in
    let '(v_new, action) := perturb_r self delta_v delta_p in
    let v_clipped := np_clip v_new (min_voltage self) (max_voltage self) in
    h ← append "action" (Str action) h;
    Some ({| step_size := step_size self;
             max_voltage := max_voltage self;
             min_voltage := min_voltage self;
             sample_time := sample_time self;
             v_prev := v_measured;
             p_prev := p_measured;
             v_ref := v_clipped;
             history := h |}, v_clipped).

(** The objects a program can hold on these operations. *)
Inductive reachable_r : MPPT_PO → Prop :=
| reach_r_init step max min st self :
    __init__ step max min st = Some self → reachable_r self
| reach_r_update self v i self' r :
    reachable_r self → update_r self v i = Some (self', r) → reachable_r self'.

End Rounded.

(** *** Binary64 *)








(** An object with inverted bounds: the one built by
    [MPPT_PO(step_size=1, max_voltage=0, min_voltage=1)] after the call
    [update(1, 1)]. *)
Definition inverted_example : MPPT_PO :=
  {| step_size := 1; max_voltage := 0; min_voltage := 1;
     sample_time := 1 # 10; v_prev := 1; p_prev := 1; v_ref := 1;
     history := <["v" := [Num 1]]> (<["i" := [Num 1]]> (<["p" := [Num 1]]>
                  (<["action" := [Str "init"]]> ∅))) |}.

(** A fresh object: the one built by
    [MPPT_PO(step_size=0.5, max_voltage=45, min_voltage=10, sample_time=0.2)]. *)
Definition fresh_example : MPPT_PO :=
  {| step_size := 1 # 2; max_voltage := 45; min_voltage := 10;
     sample_time := 1 # 5; v_prev := 0; p_prev := 0; v_ref := 10;
     history := <["v" := []]> (<["i" := []]> (<["p" := []]>
                  (<["action" := []]> ∅))) |}.

(** ** Tests and clamp *)




Lemma Qeq_bool_false (x y : Q) : ¬ x == y → Qeq_bool x y = false.
Proof.
  intros H. destruct (Qeq_bool x y) eqn:E; [|done].
  by apply Qeq_bool_iff in E.
Qed.

Lemma np_clip_bounds (a lo hi : Q) :
  lo <= hi → lo <= np_clip a lo hi ∧ np_clip a lo hi <= hi.
Proof.
  intros H. unfold np_clip.
  pose proof (Q.le_max_r a lo). pose proof (Q.le_min_r (Qmax a lo) hi).
  split; [|done]. apply Q.min_glb; [done | lra].
Qed.



Lemma np_clip_inside (a lo hi : Q) : lo <= a → a <= hi → np_clip a lo hi == a.
Proof.
  intros H1 H2. unfold np_clip.
  rewrite (Q.max_l a lo) by done. by apply Q.min_l.
Qed.

(** ** One call of [update] *)

Lemma append_Some k x (h : gmap string (list value)) l :
  h !! k = Some l → append k x h = Some (<[k := l ++ [x]]> h).
Proof. intros H. unfold append. by rewrite H. Qed.

(** What a call does on an object that has its four history lists. *)
Lemma update_step self v i lv li lp la :
  logs self lv li lp la →
  ∃ s' a, update self v i = Some (s', v_ref s') ∧
    same_config self s' ∧ v_prev s' = v ∧ p_prev s' = v * i ∧
    logs s' (lv ++ [Num v]) (li ++ [Num i]) (lp ++ [Num (v * i)]) (la ++ [Str a]) ∧
    dom (history s') = dom (history self) ∧
    if Qeq_bool (p_prev self) 0 then a = "init"%string ∧ v_ref s' = v_ref self
    else
      let d := perturb self (v - v_prev self) (v * i - p_prev self) in
      a = d.2 ∧ v_ref s' = np_clip d.1 (min_voltage self) (max_voltage self).
Proof.
  intros (Hv & Hi & Hp & Ha). unfold update.
  rewrite (append_Some "v" _ _ lv) by done. cbn [mbind option_bind].
  rewrite (append_Some "i" _ _ li) by by simplify_map_eq.
  cbn [mbind option_bind].
  rewrite (append_Some "p" _ _ lp) by by simplify_map_eq.
  cbn [mbind option_bind].
  destruct (Qeq_bool (p_prev self) 0).
  - rewrite (append_Some "action" _ _ la) by by simplify_map_eq.
    cbn [mbind option_bind].
    match goal with |- context [Some (?s, _)] => exists s end.
    eexists. split; [reflexivity|]. cbn.
    repeat split; try by simplify_map_eq.
    rewrite !dom_insert_lookup_L; [done|by simplify_map_eq..].
  - destruct (perturb self _ _) as [v_new action] eqn:E.
    rewrite (append_Some "action" _ _ la) by by simplify_map_eq.
    cbn [mbind option_bind].
    match goal with |- context [Some (?s, _)] => exists s end.
    eexists. split; [reflexivity|]. cbn.
    repeat split; try by simplify_map_eq.
    rewrite !dom_insert_lookup_L; [done|by simplify_map_eq..].
Qed.

Lemma init_logs step max min st self :
  __init__ step max min st = Some self → logs self [] [] [] [].
Proof. intros [= <-]. by repeat split. Qed.

Lemma reachable_logs self :
  reachable self → ∃ lv li lp la, logs self lv li lp la.
Proof.
  induction 1 as [step max min st self H | self v i self' r _ IH H].
  - exists [], [], [], []. by eapply init_logs.
  - destruct IH as (lv & li & lp & la & L).
    destruct (update_step self v i _ _ _ _ L) as (s' & a & E & _ & _ & _ & L' & _).
    rewrite E in H. injection H as <- _. by eexists _, _, _, _.
Qed.

(** A call on a reachable object returns: no [KeyError]. *)
Lemma update_reachable self v i :
  reachable self → ∃ s', update self v i = Some (s', v_ref s') ∧ reachable s'.
Proof.
  intros R. destruct (reachable_logs self R) as (lv & li & lp & la & L).
  destruct (update_step self v i _ _ _ _ L) as (s' & a & E & _).
  eauto using reach_update.
Qed.

(** A property of the object that every call keeps holds along [run], and
    [run] returns on every sequence of samples. *)
Lemma run_invariant (P : MPPT_PO → Prop) (R : Q → Prop) :
  (∀ s v i, P s → ∃ s' r, update s v i = Some (s', r) ∧ P s' ∧ R r) →
  ∀ samples s, P s →
    ∃ s' outs, run s samples = Some (s', outs) ∧ P s' ∧ Forall R outs ∧
               length outs = length samples.
Proof.
  intros step. induction samples as [|[v i] rest IH]; intros s HP.
  - exists s, []. by repeat split.
  - destruct (step s v i HP) as (s1 & r & E & HP1 & HR).
    destruct (IH s1 HP1) as (s' & outs & E' & HP' & HF & HL).
    exists s', (r :: outs). cbn [run]. rewrite E. cbn. rewrite E'. cbn.
    repeat split; [done | by constructor | by rewrite HL].
Qed.

Lemma tracking_example_reachable : reachable tracking_example.
Proof.
  eapply (reach_update _ 10 1 _ 10).
  - by eapply (reach_init (1 # 2) 45 10 (1 # 5)).
  - vm_compute. reflexivity.
Qed.

(** ** Properties of [update] *)

(** C5 (first call).  Whatever the four parameters and whatever the two
    measurements, the first call of [update] on the object that [__init__]
    built returns the configured [min_voltage] itself, leaves [v_ref] as it
    was, and the action list then holds the single entry ["init"]. *)
Theorem first_update_returns_min_voltage (step max min st v i : Q) :
  ∃ s0 s', __init__ step max min st = Some s0 ∧
           update s0 v i = Some (s', min) ∧
           v_ref s0 = min ∧ v_ref s' = v_ref s0 ∧
           history s' !! "action" = Some [Str "init"].
Proof.
  eexists _, _. split; [reflexivity|].
  split; [reflexivity|]. by repeat split.
Qed.



(** C4 (bounds).  For a configuration with [min_voltage < max_voltage] and
    [step_size > 0] and any finite sequence of samples, the calls of [update]
    on a fresh object all return, the reference of the object lies in
    [[min_voltage, max_voltage]] after them, and so does every returned
    value, the ones of first-sample calls included.  The sequence is
    arbitrary, so this holds after each call. *)
Theorem reference_within_bounds (step max min st : Q) (samples : list (Q * Q)) :
  min < max → 0 < step →
  ∃ s0 s outs, __init__ step max min st = Some s0 ∧
    run s0 samples = Some (s, outs) ∧ length outs = length samples ∧
    min <= v_ref s ∧ v_ref s <= max ∧
    Forall (λ r, min <= r ∧ r <= max) outs.
Proof.
  intros Hb Hs. eexists. 
  set (P := λ s : MPPT_PO, reachable s ∧ min_voltage s = min ∧
              max_voltage s = max ∧ min <= v_ref s ∧ v_ref s <= max).
  opose proof (run_invariant P (λ r, min <= r ∧ r <= max) _ samples _ _)
    as (s & outs & E & (_ & _ & _ & B1 & B2) & F & Len).
  - intros s v i (R & Emin & Emax & B1 & B2).
    destruct (reachable_logs s R) as (lv & li & lp & la & L).
    destruct (update_step s v i _ _ _ _ L)
      as (s' & a & E & (_ & C1 & C2 & _) & _ & _ & _ & _ & D).
    exists s', (v_ref s'). split; [done|].
    assert (min <= v_ref s' ∧ v_ref s' <= max) as [B1' B2'].
    { destruct (Qeq_bool (p_prev s) 0).
      - destruct D as [_ ->]. done.
      - cbn zeta in D. destruct D as [_ ->]. rewrite Emin, Emax.
        apply np_clip_bounds. lra. }
    repeat split; try done; try congruence.
    by eapply reach_update.
  - split; [by eapply reach_init|]. cbn. repeat split; lra.
  - exists s, outs. by repeat split.
Qed.

Lemma reference_within_bounds_witness :
  10 < 45 ∧ 0 < 1 # 2 ∧
  ∃ s0 s outs, __init__ (1 # 2) 45 10 (1 # 5) = Some s0 ∧
    run s0 [(10, 0); (11, 2 # 5); (21 # 2, 1 # 2)] = Some (s, outs) ∧
    length outs = 3%nat ∧ 10 <= v_ref s ∧ v_ref s <= 45 ∧
    Forall (λ r, 10 <= r ∧ r <= 45) outs.
Proof.
  split; [by vm_compute|]. split; [by vm_compute|].
  apply (reference_within_bounds (1 # 2) 45 10 (1 # 5)
           [(10, 0); (11, 2 # 5); (21 # 2, 1 # 2)]); by vm_compute.
Defined.

(** ** The history log *)

Lemma run_logs (samples : list (Q * Q)) :
  ∀ self lv li lp la, logs self lv li lp la →
  ∃ s outs acts, run self samples = Some (s, outs) ∧
    logs s (lv ++ ((λ x, Num x.1) <$> samples))
           (li ++ ((λ x, Num x.2) <$> samples))
           (lp ++ ((λ x, Num (x.1 * x.2)) <$> samples))
           (la ++ (Str <$> acts)) ∧
    length acts = length samples.
Proof.
  induction samples as [|[v i] rest IH]; intros self lv li lp la L.
  - exists self, [], []. cbn. by rewrite !app_nil_r.
  - destruct (update_step self v i _ _ _ _ L) as (s1 & a & E & _ & _ & _ & L1 & _).
    destruct (IH _ _ _ _ _ L1) as (s & outs & acts & E' & L' & Len).
    exists s, (v_ref s1 :: outs), (a :: acts).
    cbn [run]. rewrite E. cbn. rewrite E'. cbn.
    rewrite <- !app_assoc in L'. by rewrite Len.
Qed.

Lemma logs_log self lv li lp la :
  logs self lv li lp la →
  log self "v" = lv ∧ log self "i" = li ∧ log self "p" = lp ∧
  log self "action" = la.
Proof. intros (Hv & Hi & Hp & Ha). unfold log. by rewrite Hv, Hi, Hp, Ha. Qed.

(** C7 (history).  After the calls [samples] on a fresh object the lists
    under ["v"], ["i"] and ["p"] hold the measured voltages, currents and
    powers of the calls in call order, the list under ["action"] holds one
    action per call, and the four lengths are the number of calls.  Further
    calls [more] leave these entries in place and add theirs behind them,
    again one per call and list. *)
Theorem history_one_entry_per_call (step max min st : Q) (samples more : list (Q * Q)) :
  ∃ s0 s outs acts s2 outs2 acts2,
    __init__ step max min st = Some s0 ∧
    run s0 samples = Some (s, outs) ∧
    logs s ((λ x, Num x.1) <$> samples) ((λ x, Num x.2) <$> samples)
           ((λ x, Num (x.1 * x.2)) <$> samples) (Str <$> acts) ∧
    length (log s "v") = length samples ∧
    length (log s "i") = length samples ∧
    length (log s "p") = length samples ∧
    length (log s "action") = length samples ∧
    run s more = Some (s2, outs2) ∧
    logs s2 (log s "v" ++ ((λ x, Num x.1) <$> more))
            (log s "i" ++ ((λ x, Num x.2) <$> more))
            (log s "p" ++ ((λ x, Num (x.1 * x.2)) <$> more))
            (log s "action" ++ (Str <$> acts2)) ∧
    length acts2 = length more.
Proof.
  eexists.
  destruct (run_logs samples _ [] [] [] [] (init_logs step max min st _ eq_refl))
    as (s & outs & acts & E & L & Len).
  rewrite !app_nil_l in L.
  destruct (run_logs more _ _ _ _ _ L) as (s2 & outs2 & acts2 & E2 & L2 & Len2).
  exists s, outs, acts, s2, outs2, acts2.
  destruct (logs_log _ _ _ _ _ L) as (-> & -> & -> & ->).
  rewrite !length_fmap, Len.
  split; [reflexivity|]. do 8 (split; [done|]). done.
Qed.

(** ** Effects of a call *)

Lemma reachable_dom self :
  reachable self → dom (history self) = {["v"; "i"; "p"; "action"]}.
Proof.
  induction 1 as [step max min st self H | self v i self' r R IH H].
  - injection H as <-. cbn. rewrite !dom_insert_L, dom_empty_L.
    by rewrite (right_id_L ∅ (∪)), !(assoc_L (∪)).
  - destruct (reachable_logs self R) as (lv & li & lp & la & L).
    destruct (update_step self v i _ _ _ _ L) as (s' & a & E & _ & _ & _ & _ & D & _).
    rewrite E in H. injection H as <- _. by rewrite D.
Qed.

(** C9 (a call is total and touches its own object only).  On every
    reachable object and every pair of rational measurements [update]
    returns a result (no [KeyError]); the result is the reference of the new
    object; the configuration fields are unchanged; the previous sample
    becomes the measured one; the history keeps its keys and each of its
    lists is the old list with one entry appended.  The call is a function
    of the object and the two measurements: it has one result. *)
Theorem update_total_and_framed (self : MPPT_PO) (v i : Q) :
  reachable self →
  ∃ s' r, update self v i = Some (s', r) ∧ r = v_ref s' ∧
    same_config self s' ∧ v_prev s' = v ∧ p_prev s' = v * i ∧
    dom (history s') = dom (history self) ∧
    (∀ k l, history self !! k = Some l →
            ∃ x, history s' !! k = Some (l ++ [x])) ∧
    (∀ o, update self v i = o → o = Some (s', r)).
Proof.
  intros R.
  destruct (reachable_logs self R) as (lv & li & lp & la & L).
  destruct (update_step self v i _ _ _ _ L)
    as (s' & a & E & C & Pv & Pp & (Lv & Li & Lp & La) & D & _).
  exists s', (v_ref s'). do 6 (split; [done|]). split.
  - intros k l Hk. pose proof (elem_of_dom_2 _ _ _ Hk) as Hd.
    rewrite (reachable_dom self R) in Hd.
    destruct L as (Hv & Hi & Hp & Ha).
    apply elem_of_union in Hd as [Hd|Hd]; [apply elem_of_union in Hd as [Hd|Hd];
      [apply elem_of_union in Hd as [Hd|Hd]|]|];
      apply elem_of_singleton in Hd; subst k; eexists;
      rewrite Hk in *; simplify_eq; eassumption.
  - intros o <-. done.
Qed.

Lemma update_total_and_framed_witness :
  reachable tracking_example ∧
  ∃ s' r, update tracking_example 11 1 = Some (s', r) ∧ r = v_ref s' ∧
    same_config tracking_example s' ∧ v_prev s' = 11 ∧ p_prev s' = 11 * 1 ∧
    dom (history s') = dom (history tracking_example) ∧
    (∀ k l, history tracking_example !! k = Some l →
            ∃ x, history s' !! k = Some (l ++ [x])) ∧
    (∀ o, update tracking_example 11 1 = o → o = Some (s', r)).
Proof.
  split; [exact tracking_example_reachable|].
  apply (update_total_and_framed tracking_example 11 1).
  exact tracking_example_reachable.
Defined.

(** ** Saturation *)





Lemma pinned_example_reachable : reachable pinned_example.
Proof.
  eapply (reach_update _ 1 1 _ 1); [eapply (reach_update _ 2 1 _ 1);
    [eapply (reach_update _ 1 1 _ 0);
      [by eapply (reach_init 1 1 0 (1 # 10))|]|]|];
    vm_compute; reflexivity.
Qed.


(** ** Construction *)

(** C6, as the specification states it, fails: [__init__] accepts a
    configuration with [min_voltage >= max_voltage], a non-positive
    [step_size] and a non-positive [sample_time], and builds the object. *)
Lemma invalid_configuration_accepted :
  (10 <= 50 ∧ - (1 # 2) <= 0 ∧ 0 <= 0) ∧
  ∃ self, __init__ (- (1 # 2)) 10 50 0 = Some self ∧
          max_voltage self = 10 ∧ min_voltage self = 50 ∧
          step_size self = - (1 # 2) ∧ sample_time self = 0.
Proof. split; [repeat split; by vm_compute|]. eexists. by repeat split. Qed.

(** C6 (amended).  [__init__] checks nothing and raises nothing: for all
    four parameters it returns an object that stores them as given, with
    [v_prev = 0], [p_prev = 0], [v_ref = min_voltage] and four empty history
    lists. *)
Theorem init_always_constructs (step max min st : Q) :
  ∃ self, __init__ step max min st = Some self ∧
    step_size self = step ∧ max_voltage self = max ∧
    min_voltage self = min ∧ sample_time self = st ∧
    v_prev self = 0 ∧ p_prev self = 0 ∧ v_ref self = min ∧
    logs self [] [] [] [].
Proof. eexists. split; [reflexivity|]. by repeat split. Qed.

(** ** The zero-power sentinel *)

(** C1 (scenario, as the code runs it).  With [step_size=0.5],
    [min_voltage=10], [max_voltage=45], the calls [update(10, 0)],
    [update(11, 0.4)], [update(10.5, 0.5)] return 10, 10, 10 and record
    ["init"], ["init"], ["decrease"]: the first sample has power zero, so
    [p_prev] is still the sentinel at the second call, which takes the
    first-sample branch again instead of increasing to 10.5. *)
Theorem scenario_second_call_reinitialises :
  ∃ s0 s outs, __init__ (1 # 2) 45 10 (1 # 10) = Some s0 ∧
    run s0 [(10, 0); (11, 2 # 5); (21 # 2, 1 # 2)] = Some (s, outs) ∧
    Forall2 Qeq outs [10; 10; 10] ∧
    history s !! "action" = Some [Str "init"; Str "init"; Str "decrease"].
Proof.
  eexists _, _, _. split; [reflexivity|]. split; [vm_compute; reflexivity|].
  split; [repeat constructor|]. by vm_compute.
Qed.

(** C2 (one-way transition, as the code runs it).  With the same
    configuration, the calls [update(10, 1)], [update(11, 1)],
    [update(12, 0)], [update(13, 1)] return 10, 10.5, 10, 10 and record
    ["init"], ["increase"], ["decrease"], ["init"]: the zero-power third
    sample resets [p_prev] to the sentinel, and the fourth call takes the
    first-sample branch, although power and voltage both rose. *)
Theorem zero_power_sample_reinitialises :
  ∃ s0 s outs, __init__ (1 # 2) 45 10 (1 # 10) = Some s0 ∧
    run s0 [(10, 1); (11, 1); (12, 0); (13, 1)] = Some (s, outs) ∧
    Forall2 Qeq outs [10; 21 # 2; 10; 10] ∧
    history s !! "action" =
      Some [Str "init"; Str "increase"; Str "decrease"; Str "init"].
Proof.
  eexists _, _, _. split; [reflexivity|]. split; [vm_compute; reflexivity|].
  split; [repeat constructor|]. by vm_compute.
Qed.

(** ** Further properties of [update] *)

(** X1 (missing key).  A call of [update] raises exactly when one of the
    four lists ["v"], ["i"], ["p"], ["action"] is missing from the
    history dict; the measurements and the rest of the object play no
    part. *)
Theorem update_raises_iff_key_missing (self : MPPT_PO) (v i : Q) :
  update self v i = None ↔
  history self !! "v" = None ∨ history self !! "i" = None ∨
  history self !! "p" = None ∨ history self !! "action" = None.
Proof.
  destruct (history self !! "v") as [lv|] eqn:Hv;
  destruct (history self !! "i") as [li|] eqn:Hi;
  destruct (history self !! "p") as [lp|] eqn:Hp;
  destruct (history self !! "action") as [la|] eqn:Ha.
  1: { destruct (update_step self v i lv li lp la) as (s' & a & -> & _); [done|].
       split; [done|]. intros [?|[?|[?|?]]]; done. }
  all: split; [intros _; auto 6|intros _].
  all: unfold update, append; rewrite ?Hv; cbn [mbind option_bind];
       rewrite ?lookup_insert_ne, ?Hi by done; cbn [mbind option_bind];
       rewrite ?lookup_insert_ne, ?Hp by done; cbn [mbind option_bind];
       try done.
  all: destruct (Qeq_bool _ _); [|destruct (perturb _ _ _)];
       rewrite ?lookup_insert_ne, ?Ha by done; done.
Qed.

Lemma inverted_example_reachable : reachable inverted_example.
Proof.
  eapply (reach_update _ 1 1 _ 1).
  - by eapply (reach_init 1 0 1 (1 # 10)).
  - vm_compute. reflexivity.
Qed.

(** One call in the first-sample branch. *)
Lemma update_first_sample self v i :
  reachable self → p_prev self == 0 →
  ∃ s', update self v i = Some (s', v_ref self) ∧ reachable s' ∧
        same_config self s' ∧ v_ref s' = v_ref self ∧
        v_prev s' = v ∧ p_prev s' = v * i ∧
        history s' !! "action" = Some (log self "action" ++ [Str "init"]).
Proof.
  intros R Z. destruct (reachable_logs self R) as (lv & li & lp & la & L).
  destruct (update_step self v i _ _ _ _ L)
    as (s' & a & E & C & Pv & Pp & (_ & _ & _ & La) & _ & D).
  apply Qeq_bool_iff in Z. rewrite Z in D. destruct D as [-> Er].
  rewrite Er in E. destruct (logs_log _ _ _ _ _ L) as (_ & _ & _ & ->).
  exists s'. repeat split; try done; try apply C. by eapply reach_update.
Qed.

(** X2 (zero power is skipped).  On a reachable object whose previous power
    is zero (a fresh object, or one whose last sample had zero power),
    samples of zero power followed by any sample [(v, i)] are all handled as
    first samples: every call returns the unchanged reference and logs
    ["init"], and [(v, i)] is the sample the next call compares with. *)
Theorem zero_power_samples_are_skipped (self : MPPT_PO)
    (samples : list (Q * Q)) (v i : Q) :
  reachable self → p_prev self == 0 →
  Forall (λ x, x.1 * x.2 == 0) samples →
  ∃ s outs, run self (samples ++ [(v, i)]) = Some (s, outs) ∧
    v_ref s = v_ref self ∧ Forall (λ r, r = v_ref self) outs ∧
    length outs = S (length samples) ∧
    history s !! "action" =
      Some (log self "action" ++ replicate (S (length samples)) (Str "init")) ∧
    v_prev s = v ∧ p_prev s = v * i.
Proof.
  revert self. induction samples as [|[v0 i0] rest IH]; intros self R Z F.
  - destruct (update_first_sample self v i R Z)
      as (s' & E & _ & _ & Er & Pv & Pp & La).
    exists s', [v_ref self]. cbn [app run]. rewrite E. cbn.
    repeat split; try done. by repeat constructor.
  - apply Forall_cons in F as [Z0 F]. cbn [fst snd] in Z0.
    destruct (update_first_sample self v0 i0 R Z)
      as (s1 & E & R1 & _ & Er & _ & Pp & La).
    destruct (IH s1) as (s & outs & E' & Er' & Fo & Len & La' & Pv' & Pp');
      [done | by rewrite Pp | done |].
    exists s, (v_ref self :: outs).
    change (((v0, i0) :: rest) ++ [(v, i)]) with ((v0, i0) :: (rest ++ [(v, i)])).
    cbn [run]. rewrite E. cbn. rewrite E'. cbn.
    rewrite Er in *. unfold log in La' at 1. rewrite La in La'. cbn in La'.
    rewrite <- app_assoc in La'.
    repeat split; try done; try congruence.
    by constructor.
Qed.

Lemma fresh_example_reachable : reachable fresh_example.
Proof. by eapply (reach_init (1 # 2) 45 10 (1 # 5)). Qed.

Lemma zero_power_samples_are_skipped_witness :
  reachable fresh_example ∧ p_prev fresh_example == 0 ∧
  Forall (λ x, x.1 * x.2 == 0) [(10, 0); (0, 3)] ∧
  ∃ s outs, run fresh_example ([(10, 0); (0, 3)] ++ [(12, 1)]) = Some (s, outs) ∧
    v_ref s = 10 ∧ Forall (λ r, r = 10) outs ∧ length outs = 3%nat ∧
    history s !! "action" = Some ([] ++ replicate 3 (Str "init")) ∧
    v_prev s = 12 ∧ p_prev s = 12 * 1.
Proof.
  split; [exact fresh_example_reachable|]. split; [by vm_compute|].
  split; [by repeat constructor|].
  apply (zero_power_samples_are_skipped fresh_example [(10, 0); (0, 3)] 12 1).
  - exact fresh_example_reachable.
  - by vm_compute.
  - by repeat constructor.
Defined.

(** The three ways a call on a reachable object can go. *)
Lemma update_cases self v i :
  reachable self →
  ∃ s', update self v i = Some (s', v_ref s') ∧ reachable s' ∧
    same_config self s' ∧
    ((p_prev self == 0 ∧ v_ref s' = v_ref self ∧
      log s' "action" = log self "action" ++ [Str "init"]) ∨
     (¬ p_prev self == 0 ∧
      v_ref s' = np_clip (v_ref self + step_size self)
                         (min_voltage self) (max_voltage self) ∧
      log s' "action" = log self "action" ++ [Str "increase"]) ∨
     (¬ p_prev self == 0 ∧
      v_ref s' = np_clip (v_ref self - step_size self)
                         (min_voltage self) (max_voltage self) ∧
      log s' "action" = log self "action" ++ [Str "decrease"])).
Proof.
  intros R. destruct (reachable_logs self R) as (lv & li & lp & la & L).
  destruct (update_step self v i _ _ _ _ L)
    as (s' & a & E & C & _ & _ & L' & _ & D).
  destruct (logs_log _ _ _ _ _ L) as (_ & _ & _ & ->).
  destruct (logs_log _ _ _ _ _ L') as (_ & _ & _ & La).
  exists s'. split; [done|]. split; [by eapply reach_update|]. split; [done|].
  destruct (Qeq_bool (p_prev self) 0) eqn:T.
  - left. apply Qeq_bool_iff in T. destruct D as [-> ->]. done.
  - right. assert (¬ p_prev self == 0) as NZ.
    { intros Z. apply Qeq_bool_iff in Z. congruence. }
    cbn zeta in D. destruct D as [-> ->]. unfold perturb in *.
    destruct (Qpos_b _), (Qpos_b _); cbn [fst snd] in *; auto.
Qed.

(** An invariant of the fresh object that every call keeps holds on all
    reachable objects. *)
Lemma reachable_invariant (P : MPPT_PO → Prop) :
  (∀ step max min st s, __init__ step max min st = Some s → P s) →
  (∀ s v i s', reachable s → P s → update s v i = Some (s', v_ref s') → P s') →
  ∀ s, reachable s → P s.
Proof.
  intros Hinit Hstep s. induction 1 as [step max min st s H | s v i s' r R IH H].
  - by eapply Hinit.
  - destruct (update_cases s v i R) as (s1 & E & _).
    rewrite E in H. injection H as <- <-. by eapply Hstep.
Qed.

(** X3 (logged actions).  On a reachable object every entry of the action
    list is ["init"], ["increase"] or ["decrease"], which the action plot
    of [plot_history] turns into 0, 1 and -1 in the same order; a non-empty
    list starts with ["init"]. *)
Theorem logged_actions_and_their_plot (self : MPPT_PO) :
  reachable self →
  Forall2 (λ a z, a = Str "init" ∧ z = 0%Z ∨ a = Str "increase" ∧ z = 1%Z ∨
                  a = Str "decrease" ∧ z = (-1)%Z)
          (log self "action") (action_num (log self "action")) ∧
  (∀ a, head (log self "action") = Some a → a = Str "init").
Proof.
  intros R.
  enough (Forall2 (λ a z, a = Str "init" ∧ z = 0%Z ∨ a = Str "increase" ∧ z = 1%Z ∨
                          a = Str "decrease" ∧ z = (-1)%Z)
            (log self "action") (action_num (log self "action")) ∧
          (∀ a, head (log self "action") = Some a → a = Str "init") ∧
          (log self "action" = [] → p_prev self == 0)) as (? & ? & _) by done.
  revert self R. apply reachable_invariant.
  - intros step max min st s H.
    destruct (logs_log _ _ _ _ _ (init_logs _ _ _ _ _ H)) as (_ & _ & _ & ->).
    injection H as <-. cbn.
    split; [apply Forall2_nil | split; [done | intros _; lra]]. done.
  - intros s v i s' R (F & Hd & Hnil) E.
    destruct (update_cases s v i R) as (s1 & E1 & _ & _ & Cases).
    rewrite E in E1. injection E1 as <-.
    assert (∃ a, log s' "action" = log s "action" ++ [a] ∧
                 (a = Str "init" ∧ action_code a = 0%Z ∨
                  a = Str "increase" ∧ action_code a = 1%Z ∨
                  a = Str "decrease" ∧ action_code a = (-1)%Z) ∧
                 (log s "action" = [] → a = Str "init")) as (a & -> & Ha & Hfirst).
    { destruct Cases as [(Z & _ & La)|[(NZ & _ & La)|(NZ & _ & La)]];
        eexists; (split; [exact La|]); split; auto; intros N; by apply Hnil in N. }
    split; [|split].
    + unfold action_num. rewrite fmap_app. apply Forall2_app; [done|].
      constructor; [exact Ha | constructor].
    + intros b. destruct (log s "action") as [|c l] eqn:El; cbn.
      * intros [= <-]. by apply Hfirst.
      * intros [= <-]. by apply Hd.
    + intros N. by apply app_eq_nil in N as [_ ?].
Qed.

Lemma logged_actions_and_their_plot_witness :
  reachable pinned_example ∧
  Forall2 (λ a z, a = Str "init" ∧ z = 0%Z ∨ a = Str "increase" ∧ z = 1%Z ∨
                  a = Str "decrease" ∧ z = (-1)%Z)
          [Str "init"; Str "increase"; Str "increase"] [0; 1; 1]%Z ∧
  (∀ a, head (log pinned_example "action") = Some a → a = Str "init").
Proof.
  split; [exact pinned_example_reachable|].
  apply (logged_actions_and_their_plot pinned_example).
  exact pinned_example_reachable.
Defined.

(** X4 (inverted bounds).  When the object was built with
    [max_voltage < min_voltage], every call that applies the decision rule
    sets the reference to [max_voltage], whatever the measurements and the
    step: the clamp takes the minimum with [max_voltage] last, so the
    reference ends below [min_voltage]. *)
Theorem inverted_bounds_pin_to_max_voltage (self : MPPT_PO) (v i : Q) :
  reachable self → max_voltage self < min_voltage self → ¬ p_prev self == 0 →
  ∃ s', update self v i = Some (s', v_ref s') ∧
        v_ref s' == max_voltage self ∧ v_ref s' < min_voltage self.
Proof.
  intros R Inv NZ.
  destruct (update_cases self v i R) as (s' & E & _ & _ & Cases).
  exists s'. split; [done|].
  assert (∀ a, np_clip a (min_voltage self) (max_voltage self) == max_voltage self) as Clip.
  { intros a. unfold np_clip. apply Q.min_r.
    pose proof (Q.le_max_r a (min_voltage self)). lra. }
  destruct Cases as [(Z & _)|[(_ & -> & _)|(_ & -> & _)]]; [done|..];
    rewrite Clip; split; (reflexivity || lra).
Qed.

Lemma inverted_bounds_pin_to_max_voltage_witness :
  reachable inverted_example ∧
  max_voltage inverted_example < min_voltage inverted_example ∧
  ¬ p_prev inverted_example == 0 ∧
  ∃ s', update inverted_example 2 1 = Some (s', v_ref s') ∧
        v_ref s' == 0 ∧ v_ref s' < 1.
Proof.
  split; [exact inverted_example_reachable|].
  split; [by vm_compute|]. split; [by vm_compute|].
  apply (inverted_bounds_pin_to_max_voltage inverted_example 2 1).
  - exact inverted_example_reachable.
  - by vm_compute.
  - by vm_compute.
Defined.

(** The reference of a reachable object with sound bounds is inside them. *)
Lemma reachable_bounds self :
  reachable self → min_voltage self <= max_voltage self →
  min_voltage self <= v_ref self ∧ v_ref self <= max_voltage self.
Proof.
  intros R. revert self R. apply (reachable_invariant (λ s,
    min_voltage s <= max_voltage s →
    min_voltage s <= v_ref s ∧ v_ref s <= max_voltage s)).
  - intros step max min st s [= <-]. cbn. intros. split; lra.
  - intros s v i s' R IH E.
    destruct (update_cases s v i R) as (s1 & E1 & _ & (_ & C1 & C2 & _) & Cases).
    rewrite E in E1. injection E1 as <-. rewrite C1, C2. intros Hb.
    destruct Cases as [(_ & -> & _)|[(_ & -> & _)|(_ & -> & _)]];
      [by apply IH | by apply np_clip_bounds..].
Qed.


(** ** The simulation loop *)

(** [int] is the floor on non-negative numbers and is never positive on
    negative ones, so [range(int(q))] runs [floor q] times, or not at all. *)
Lemma py_int_iterations (q : Q) :
  let n := Z.to_nat (py_int q) in
  (0 <= q → inject_Z (Z.of_nat n) <= q ∧ q < inject_Z (Z.of_nat n) + 1) ∧
  (q < 1 → n = 0%nat).
Proof.
  intros n.
  assert (0 <= q → py_int q = Qfloor q) as Hfloor.
  { destruct q as [a b]. unfold Qle, py_int, Qfloor. cbn. intros H.
    apply Z.quot_div_nonneg; lia. }
  assert (q < 0 → (py_int q <= 0)%Z) as Hneg.
  { destruct q as [a b]. unfold Qlt, py_int. cbn. intros H.
    replace a with (- - a)%Z by lia. rewrite Z.quot_opp_l by lia.
    pose proof (Z.quot_pos (- a) (Z.pos b)). lia. }
  pose proof (Qfloor_le q) as Hle. pose proof (Qlt_floor q) as Hlt.
  rewrite inject_Z_plus in Hlt. change (inject_Z 1) with 1 in Hlt.
  split.
  - intros Hq. specialize (Hfloor Hq). subst n. rewrite Hfloor.
    assert (0 <= Qfloor q)%Z as Hf.
    { apply Z.lt_succ_r. unfold Z.succ. rewrite Zlt_Qlt, inject_Z_plus.
      change (inject_Z 0) with 0. change (inject_Z 1) with 1. lra. }
    rewrite Z2Nat.id by done. done.
  - intros Hq. subst n. destruct (Qlt_le_dec q 0) as [N|P].
    + specialize (Hneg N). lia.
    + rewrite (Hfloor P).
      assert (Qfloor q < 1)%Z as Hf. { rewrite Zlt_Qlt. change (inject_Z 1) with 1. lra. }
      lia.
Qed.

(** A property of controller and operating voltage that every iteration
    keeps holds after the loop, and the loop returns. *)
Lemma simulation_loop_invariant (pv : Q → option Q) (noise : nat → Q)
    (sleep : Q → option unit) (P : nat → MPPT_PO → Q → Prop) :
  (∀ k s v, P k s v →
     ∃ c s', pv v = Some c ∧
       update s v (c + noise k) = Some (s', v_ref s') ∧
       sleep (sample_time s') = Some () ∧ P (S k) s' (v_ref s')) →
  ∀ n k s v, P k s v →
    ∃ s' v', simulation_loop pv noise sleep n k s v = Some (s', v') ∧
             P (n + k)%nat s' v'.
Proof.
  intros Hstep. induction n as [|n IH]; intros k s v HP.
  - exists s, v. done.
  - destruct (Hstep k s v HP) as (c & s1 & Ec & E & Es & HP1).
    destruct (IH (S k) s1 (v_ref s1) HP1) as (s' & v' & E' & HP').
    exists s', v'. cbn [simulation_loop]. rewrite Ec. cbn. rewrite E. cbn.
    rewrite Es. cbn. rewrite E'. by rewrite Nat.add_succ_r in HP'.
Qed.

(** The four history lists grow by one entry per call. *)
Lemma update_log_lengths self v i s' r :
  reachable self → update self v i = Some (s', r) →
  log s' "v" = log self "v" ++ [Num v] ∧
  length (log s' "i") = S (length (log self "i")) ∧
  length (log s' "p") = S (length (log self "p")) ∧
  length (log s' "action") = S (length (log self "action")).
Proof.
  intros R E. destruct (reachable_logs self R) as (lv & li & lp & la & L).
  destruct (update_step self v i _ _ _ _ L) as (s1 & a & E1 & _ & _ & _ & L' & _).
  rewrite E in E1. injection E1 as <- _.
  destruct (logs_log _ _ _ _ _ L) as (-> & -> & -> & ->).
  destruct (logs_log _ _ _ _ _ L') as (-> & -> & -> & ->).
  rewrite !length_app. cbn. repeat split; lia.
Qed.

(** The object that [__init__] builds. *)
Lemma init_fresh (step max min st : Q) :
  ∃ s0, __init__ step max min st = Some s0 ∧ reachable s0 ∧
    step_size s0 = step ∧ max_voltage s0 = max ∧ min_voltage s0 = min ∧
    sample_time s0 = st ∧ v_ref s0 = min ∧ p_prev s0 = 0 ∧
    (∀ k, log s0 k = []).
Proof.
  eexists. split; [reflexivity|]. split; [by eapply (reach_init step max min st)|].
  do 6 (split; [reflexivity|]). intros k. unfold log. cbn [history].
  destruct (decide (k = "v"%string)) as [->|]; [done|].
  destruct (decide (k = "i"%string)) as [->|]; [done|].
  destruct (decide (k = "p"%string)) as [->|]; [done|].
  destruct (decide (k = "action"%string)) as [->|]; [done|].
  by rewrite !lookup_insert_ne, lookup_empty by done.
Qed.

(** X8 (length and failures of a simulation).  On a fresh controller
    [simulate_real_time] raises when [sample_time] is zero.  Otherwise,
    with [q] the computed quotient [duration/sample_time]: when [q < 1] it
    returns at once and leaves the controller as built; when [1 <= q] and
    [sleep] rejects the sample time it raises; and when [sleep] accepts it,
    the bounds are in order and the panel function returns on them, it
    returns after exactly [int(q)] calls of [update], the floor of [q]: the
    four history lists have that length, and the operating voltage is the
    reference. *)
Theorem simulation_length (pv : Q → option Q) (noise : nat → Q)
    (true_div : Q → Q → option Q) (sleep : Q → option unit)
    (step max min st duration : Q) :
  ∃ s0, __init__ step max min st = Some s0 ∧
    (st == 0 → simulate_real_time pv noise true_div sleep s0 duration = None) ∧
    (∀ q, ¬ st == 0 → true_div duration st = Some q →
       (q < 1 →
        simulate_real_time pv noise true_div sleep s0 duration = Some (s0, min)) ∧
       (1 <= q → sleep st = None →
        simulate_real_time pv noise true_div sleep s0 duration = None) ∧
       (min <= max → sleep st = Some () →
        (∀ v, min <= v → v <= max → is_Some (pv v)) →
        ∃ s v (n : nat),
          simulate_real_time pv noise true_div sleep s0 duration = Some (s, v) ∧
          v = v_ref s ∧
          length (log s "v") = n ∧ length (log s "i") = n ∧
          length (log s "p") = n ∧ length (log s "action") = n ∧
          n = Z.to_nat (py_int q) ∧
          (0 <= q → inject_Z (Z.of_nat n) <= q ∧ q < inject_Z (Z.of_nat n) + 1) ∧
          (q < 1 → n = 0%nat))).
Proof.
  destruct (init_fresh step max min st)
    as (s0 & H0 & R0 & _ & Emax0 & Emin0 & Est0 & Er0 & _ & L0).
  exists s0. split; [done|]. unfold simulate_real_time. rewrite Est0, Emin0.
  split.
  - intros Z. apply Qeq_bool_iff in Z. by rewrite Z.
  - intros q NZ Hq. rewrite (Qeq_bool_false _ _ NZ), Hq. cbn [mbind option_bind].
    destruct (py_int_iterations q) as [F1 F2]. split; [|split].
    + intros Small. by rewrite (F2 Small).
    + intros Big Hsleep. destruct (F1 ltac:(lra)) as [_ Hn].
      destruct (Z.to_nat (py_int q)) as [|n].
      { exfalso. change (inject_Z (Z.of_nat 0)) with 0 in Hn. lra. }
      cbn [simulation_loop]. destruct (pv min) as [c|]; [|done].
      cbn [mbind option_bind].
      destruct (update_cases s0 min (c + noise 0%nat) R0)
        as (s1 & E & _ & (_ & _ & _ & Cst) & _).
      rewrite E. cbn. by rewrite Cst, Est0, Hsleep.
    + intros Hb Hsleep Hpv.
      set (P := λ (k : nat) (s : MPPT_PO) (v : Q), reachable s ∧
        sample_time s = st ∧ min_voltage s = min ∧ max_voltage s = max ∧
        v = v_ref s ∧
        length (log s "v") = k ∧ length (log s "i") = k ∧
        length (log s "p") = k ∧ length (log s "action") = k).
      destruct (simulation_loop_invariant pv noise sleep P) with
        (n := Z.to_nat (py_int q)) (k := 0%nat) (s := s0) (v := min)
        as (s & v & E & (_ & _ & _ & _ & Ev & L1 & L2 & L3 & L4)).
      * intros k s v (R & Cst & Cmin & Cmax & -> & L1 & L2 & L3 & L4).
        destruct (reachable_bounds s R ltac:(by rewrite Cmin, Cmax)) as [Hlo Hhi].
        rewrite Cmin in Hlo. rewrite Cmax in Hhi.
        destruct (Hpv (v_ref s) Hlo Hhi) as [c Ec].
        destruct (update_cases s (v_ref s) (c + noise k) R)
          as (s' & E & R' & (_ & C1 & C2 & C3) & _).
        destruct (update_log_lengths _ _ _ _ _ R E) as (Lv & Li & Lp & La).
        exists c, s'. split; [done|]. split; [done|].
        split; [by rewrite C3, Cst|]. unfold P. rewrite Lv, length_app. cbn.
        repeat split; try done; try congruence; lia.
      * unfold P. rewrite !L0. by repeat split.
      * rewrite Nat.add_0_r in *.
        exists s, v, (Z.to_nat (py_int q)).
        split; [exact E|]. do 6 (split; [done|]). split; [exact F1 | exact F2].
Qed.

(** X9 (operating window).  With [min_voltage <= max_voltage], a non-zero
    sample time that [sleep] accepts, a finite quotient and a panel
    function that returns on the bounds, whatever the currents and the
    noise, a simulation on a fresh controller returns, measures only
    voltages inside [[min_voltage, max_voltage]], the first of them
    [min_voltage] itself, and ends with the operating voltage inside the
    bounds. *)
Theorem simulation_stays_in_window (pv : Q → option Q) (noise : nat → Q)
    (true_div : Q → Q → option Q) (sleep : Q → option unit)
    (step max min st duration q : Q) :
  min <= max → ¬ st == 0 → true_div duration st = Some q →
  sleep st = Some () → (∀ v, min <= v → v <= max → is_Some (pv v)) →
  ∃ s0 s v, __init__ step max min st = Some s0 ∧
    simulate_real_time pv noise true_div sleep s0 duration = Some (s, v) ∧
    min <= v ∧ v <= max ∧
    Forall (λ x, ∃ m, x = Num m ∧ min <= m ∧ m <= max) (log s "v") ∧
    length (log s "v") = Z.to_nat (py_int q) ∧
    (∀ x, head (log s "v") = Some x → x = Num min).
Proof.
  intros Hb NZ Hq Hsleep Hpv.
  destruct (init_fresh step max min st)
    as (s0 & H0 & R0 & _ & Emax0 & Emin0 & Est0 & Er0 & _ & L0).
  exists s0. unfold simulate_real_time. rewrite Est0, Emin0.
  rewrite (Qeq_bool_false _ _ NZ), Hq. cbn [mbind option_bind].
  set (P := λ (k : nat) (s : MPPT_PO) (v : Q), reachable s ∧
    sample_time s = st ∧ min_voltage s = min ∧ max_voltage s = max ∧
    v = v_ref s ∧
    Forall (λ x, ∃ m, x = Num m ∧ min <= m ∧ m <= max) (log s "v") ∧
    length (log s "v") = k ∧
    (∀ x, head (log s "v") = Some x → x = Num min) ∧
    (log s "v" = [] → v = min)).
  assert (∀ k s v, P k s v → min <= v ∧ v <= max) as Pb.
  { intros _ s v (R & _ & <- & <- & -> & _). by apply reachable_bounds. }
  destruct (simulation_loop_invariant pv noise sleep P) with
    (n := Z.to_nat (py_int q)) (k := 0%nat) (s := s0) (v := min)
    as (s & v & E & HP).
  - intros k s v HP. destruct (Pb k s v HP) as [Hlo Hhi].
    destruct HP as (R & Cst & Cmin & Cmax & Ev & F & Len & Hd & Hnil).
    destruct (Hpv v Hlo Hhi) as [c Ec].
    destruct (update_cases s v (c + noise k) R)
      as (s' & E & R' & (_ & C1 & C2 & C3) & _).
    destruct (update_log_lengths _ _ _ _ _ R E) as (Lv & _).
    exists c, s'. split; [done|]. split; [done|].
    split; [by rewrite C3, Cst|]. unfold P. rewrite Lv, C1, C2, C3.
    do 5 (split; [done|]). split; [|split; [|split]].
    + apply Forall_app. split; [done|]. constructor; [|constructor]. by exists v.
    + rewrite length_app. cbn. lia.
    + intros x. destruct (log s "v") as [|y l] eqn:El; cbn.
      * intros [= <-]. by rewrite Hnil.
      * intros [= <-]. by apply Hd.
    + intros N. by apply app_eq_nil in N as [_ ?].
  - unfold P. rewrite L0. by repeat split.
  - destruct (Pb _ _ _ HP) as [Hlo Hhi].
    destruct HP as (_ & _ & _ & _ & _ & F & Len & Hd & _).
    rewrite Nat.add_0_r in Len. exists s, v. by repeat split.
Qed.

Lemma simulation_stays_in_window_witness :
  10 <= 45 ∧ ¬ 1 # 5 == 0 ∧ Some (1 / (1 # 5)) = Some 5 ∧
  Some () = Some () ∧ (∀ v : Q, 10 <= v → v <= 45 → is_Some (Some 1)) ∧
  ∃ s0 s v, __init__ (1 # 2) 45 10 (1 # 5) = Some s0 ∧
    simulate_real_time (λ _, Some 1) (λ _, 0) (λ x y, Some (x / y))
                       (λ _, Some ()) s0 1 = Some (s, v) ∧
    10 <= v ∧ v <= 45 ∧
    Forall (λ x, ∃ m, x = Num m ∧ 10 <= m ∧ m <= 45) (log s "v") ∧
    length (log s "v") = Z.to_nat (py_int 5) ∧
    (∀ x, head (log s "v") = Some x → x = Num 10).
Proof.
  split; [by vm_compute|]. split; [by vm_compute|]. split; [reflexivity|].
  split; [reflexivity|]. split; [by eexists|].
  apply (simulation_stays_in_window (λ _, Some 1) (λ _, 0) (λ x y, Some (x / y))
           (λ _, Some ()) (1 # 2) 45 10 (1 # 5) 1 5).
  - by vm_compute.
  - by vm_compute.
  - reflexivity.
  - reflexivity.
  - by eexists.
Defined.

(** X10 (no power, no start).  When the panel and the noise give zero power
    at [min_voltage] in every iteration (and the sample time is non-zero
    and accepted by [sleep], the quotient finite), a simulation on a fresh
    controller never leaves the first-sample branch: every call logs
    ["init"], and reference and operating voltage are still [min_voltage]
    after the loop. *)
Theorem simulation_never_starts_without_power (pv : Q → option Q)
    (noise : nat → Q) (true_div : Q → Q → option Q) (sleep : Q → option unit)
    (step max min st duration q : Q) :
  ¬ st == 0 → true_div duration st = Some q → sleep st = Some () →
  (∀ k, ∃ c, pv min = Some c ∧ min * (c + noise k) == 0) →
  ∃ s0 s, __init__ step max min st = Some s0 ∧
    simulate_real_time pv noise true_div sleep s0 duration = Some (s, min) ∧
    v_ref s = min ∧
    log s "action" = replicate (Z.to_nat (py_int q)) (Str "init").
Proof.
  intros NZ Hq Hsleep Dark.
  destruct (init_fresh step max min st)
    as (s0 & H0 & R0 & _ & _ & Emin0 & Est0 & Er0 & Pp0 & L0).
  exists s0. unfold simulate_real_time. rewrite Est0, Emin0.
  rewrite (Qeq_bool_false _ _ NZ), Hq. cbn [mbind option_bind].
  set (P := λ (k : nat) (s : MPPT_PO) (v : Q), reachable s ∧
    sample_time s = st ∧ v = min ∧ v_ref s = min ∧ p_prev s == 0 ∧
    log s "action" = replicate k (Str "init")).
  destruct (simulation_loop_invariant pv noise sleep P) with
    (n := Z.to_nat (py_int q)) (k := 0%nat) (s := s0) (v := min)
    as (s & v & E & (_ & _ & -> & Er & _ & La)).
  - intros k s v (R & Cst & -> & Er & Z & La).
    destruct (Dark k) as (c & Ec & Zc).
    destruct (update_first_sample s min (c + noise k) R Z)
      as (s' & E & R' & (_ & _ & _ & C3) & Er' & _ & Pp & La').
    exists c, s'. rewrite Er', Er. split; [done|].
    split; [by rewrite E, Er|]. split; [by rewrite C3, Cst|]. unfold P.
    split; [done|]. split; [congruence|]. split; [done|].
    split; [congruence|]. split; [by rewrite Pp|].
    unfold log at 1. rewrite La', La. cbn [default].
    symmetry. apply replicate_cons_app.
  - unfold P. rewrite L0, Pp0. by repeat split.
  - rewrite Nat.add_0_r in La. exists s. by repeat split.
Qed.

Lemma simulation_never_starts_without_power_witness :
  ¬ 1 # 5 == 0 ∧ Some (1 / (1 # 5)) = Some 5 ∧ Some () = Some () ∧
  (∀ k : nat, ∃ c, Some 0 = Some c ∧ 10 * (c + 0) == 0) ∧
  ∃ s0 s, __init__ (1 # 2) 45 10 (1 # 5) = Some s0 ∧
    simulate_real_time (λ _, Some 0) (λ _, 0) (λ x y, Some (x / y))
                       (λ _, Some ()) s0 1 = Some (s, 10) ∧
    v_ref s = 10 ∧ log s "action" = replicate (Z.to_nat (py_int 5)) (Str "init").
Proof.
  split; [by vm_compute|]. split; [reflexivity|]. split; [reflexivity|].
  split; [intros _; exists 0; split; [done | by vm_compute]|].
  apply (simulation_never_starts_without_power (λ _, Some 0) (λ _, 0)
           (λ x y, Some (x / y)) (λ _, Some ()) (1 # 2) 45 10 (1 # 5) 1 5).
  - by vm_compute.
  - reflexivity.
  - reflexivity.
  - intros _. exists 0. split; [done | by vm_compute].
Defined.

(** ** The size of a move, on rounded arithmetic *)

(** On the exact operations the rounded controller is the exact one. *)
Lemma update_r_exact self v i :
  update_r Qplus Qminus Qmult self v i = update self v i.
Proof. reflexivity. Qed.

Lemma reachable_r_exact self :
  reachable_r Qplus Qminus Qmult self ↔ reachable self.
Proof.
  split; induction 1; try (by eapply reach_init); try (by eapply reach_r_init).
  - eapply reach_update; [done|]. by rewrite <- update_r_exact.
  - eapply reach_r_update; [done|]. by rewrite update_r_exact.
Qed.






